(** * scripts/redefine.py: renaming compiler-builtin symbols with objcopy

    The script reads one positional argument, builds the command line
    [objcopy --redefine-sym x=__rustx ... path] from a fixed list of
    eighteen symbols and hands it, joined with blanks, to
    [subprocess.run(..., shell=True, check=True)].

    The development follows the script from top to bottom: the argument
    parser, the symbol list, the command, the call of [subprocess.run],
    and the status the interpreter exits with. *)

From Stdlib Require Import ZArith Ascii String List Bool Lia.
From stdpp Require Import base option list strings gmap.

Import ListNotations.

Local Open Scope Z_scope.

(** ** Python primitives used by the script *)

Module Py.

(** [sep.join(l)] *)
Definition join (sep : string) (l : list string) : string :=
  String.concat sep l.

(** [t in s] for strings: [t] occurs in [s] as a contiguous run. *)
Definition contains (s t : string) : Prop :=
  exists a b : string, s = a +:+ t +:+ b.

(** [s.endswith(t)] *)
Definition endswith (s t : string) : Prop :=
  exists a : string, s = a +:+ t.


End Py.

(** ** The symbol list and the command (lines 11 to 34) *)

Definition syms : list string :=
  [ "__addsf3";
    "__eqsf2";
    "__gesf2";
    "__lesf2";
    "__ltsf2";
    "__mulsf3";
    "__nesf2";
    "__unordsf2";
    "__adddf3";
    "__ledf2";
    "__ltdf2";
    "__muldf3";
    "__unorddf2";
    "__muloti4";
    "__multi3";
    "__udivmodti4";
    "__udivti3";
    "__umodti3" ].

(** The f-string [f'--redefine-sym {x}=__rust{x}']. *)
Definition redefine_flag (x : string) : string :=
  "--redefine-sym " +:+ x +:+ "=__rust" +:+ x.

Definition objcopy_args : list string := map redefine_flag syms.

(** [cmd = ['objcopy'] + objcopy_args + [args.path]] *)
Definition cmd (path : string) : list string :=
  ["objcopy"] ++ objcopy_args ++ [path].

(** [' '.join(cmd)], the argument of [subprocess.run]. *)
Definition cmd_line (path : string) : string := Py.join " " (cmd path).

(** *** The rename table as the specification words it

    A sequence of pairs (original, renamed); the renamed name is the
    original one with the fixed prefix put in front, and a table entry is
    rendered as the flag [--redefine-sym <original>=<renamed>]. *)

Definition rename_prefix : string := "__rust".

Definition rename_table : list (string * string) :=
  map (fun x => (x, rename_prefix +:+ x)) syms.

Definition flag_of_entry (e : string * string) : string :=
  "--redefine-sym " +:+ fst e +:+ "=" +:+ snd e.

(** ** The argument parser (lines 6 to 9)

    [argparse.ArgumentParser()] with the single positional [path]; the
    parser keeps its default help option [-h], [--help], its default
    prefix character [-] and the abbreviation of long options.  The
    model follows [argparse.py] of Python 3.11 for this parser.  The
    command line is [sys.argv[1:]], a list of strings; a string is taken
    character by character, with character codes below 256. *)

Module Argparse.

(** [c in s], for a character [c]. *)
Definition has_char (c : ascii) (s : string) : bool :=
  existsb (Ascii.eqb c) (list_ascii_of_string s).

(** [s.split(c, 1)] when [c] occurs in [s]: the text before the first
    [c] and the text after it. *)
Fixpoint split1 (c : ascii) (s : string) : option (string * string) :=
  match s with
  | "" => None
  | String x s' =>
      if Ascii.eqb x c then Some ("", s')
      else match split1 c s' with
           | Some (a, b) => Some (String x a, b)
           | None => None
           end
  end.

Definition str_in (x : string) (l : list string) : bool :=
  existsb (String.eqb x) l.

(** The regular expression [^-\d+$|^-\d*\.\d+$] of
    [_negative_number_matcher]; [$] also matches before a final
    newline. *)
Definition is_digit (c : ascii) : bool :=
  (48 <=? nat_of_ascii c)%nat && (nat_of_ascii c <=? 57)%nat.

Definition at_end (s : string) : bool :=
  String.eqb s "" || String.eqb s (String "010" "").

Fixpoint digits_to_end (s : string) : bool :=
  match s with
  | "" => false
  | String c s' => is_digit c && (at_end s' || digits_to_end s')
  end.

Fixpoint fraction_to_end (s : string) : bool :=
  match s with
  | "" => false
  | String c s' =>
      if Ascii.eqb c "." then digits_to_end s'
      else is_digit c && fraction_to_end s'
  end.

Definition negative_number (s : string) : bool :=
  match s with
  | "" => false
  | String c s' =>
      Ascii.eqb c "-" && (digits_to_end s' || fraction_to_end s')
  end.

(** The option strings of the parser: those of the help action, the only
    optional action there is. *)
Definition option_string_actions : list string := ["-h"; "--help"].

(** What [_parse_optional] returns for a word: [None] (the word is
    meant as a positional), a tuple with the help action, or a tuple
    without action (it looks like an option and is none of the
    parser). *)
Inductive option_tuple : Type :=
| Positional
| HelpOption (option_string : string) (explicit_arg : option string)
| UnknownOption.

(** [_get_option_tuples], called on a word of two characters or more
    that starts with [-]: abbreviations of a long option, and a short
    option written together with its argument. *)
Definition get_option_tuples (option_string : string) : list option_tuple :=
  match option_string with
  | String c0 (String c1 rest) =>
      if Ascii.eqb c1 "-" then
        let '(option_prefix, explicit_arg) :=
          match split1 "=" option_string with
          | Some (p, e) => (p, Some e)
          | None => (option_string, None)
          end in
        flat_map
          (fun o => if String.prefix option_prefix o
                    then [HelpOption o explicit_arg] else [])
          option_string_actions
      else
        let short_option_prefix := String c0 (String c1 "") in
        let short_explicit_arg := rest in
        flat_map
          (fun o => if String.eqb o short_option_prefix
                    then [HelpOption o (Some short_explicit_arg)]
                    else if String.prefix option_string o
                         then [HelpOption o None] else [])
          option_string_actions
  | _ => []
  end.

(** [_parse_optional].  The parser has no option that looks like a
    negative number.  With one action [get_option_tuples] never returns
    two tuples, so the error for an ambiguous option cannot arise. *)
Definition parse_optional (arg_string : string) : option_tuple :=
  match arg_string with
  | "" => Positional
  | String c0 rest =>
      if negb (Ascii.eqb c0 "-") then Positional
      else if str_in arg_string option_string_actions
      then HelpOption arg_string None
      else if String.eqb rest "" then Positional
      else
        match
          match split1 "=" arg_string with
          | Some (o, e) =>
              if str_in o option_string_actions
              then Some (HelpOption o (Some e)) else None
          | None => None
          end
        with
        | Some t => t
        | None =>
            match get_option_tuples arg_string with
            | t :: _ => t
            | [] =>
                if negative_number arg_string then Positional
                else if has_char " " arg_string then Positional
                else UnknownOption
            end
        end
  end.

Inductive error : Type :=
| RequiredPath                         (* the following arguments are required: path *)
| Unrecognized (extras : list string)  (* unrecognized arguments: ' '.join(extras) *)
| IgnoredExplicit (explicit_arg : string).
                                       (* argument -h/--help: ignored explicit argument ... *)

Inductive result : Type :=
| Namespace (path : string)    (* parse_args() returns; args.path *)
| HelpExit                     (* print_help(); exit() *)
| ErrorExit (e : error).       (* error(message): usage, exit(2) *)

(** The loop of [consume_optional] for the short option [-h] written
    together with more characters: each further [h] is the help action
    again, any other character is refused. *)
Fixpoint short_option_chain (explicit_arg : string) : result :=
  match explicit_arg with
  | "" => HelpExit
  | String c e' =>
      if str_in (String "-" (String c "")) option_string_actions
      then match e' with
           | "" => HelpExit
           | String _ _ => short_option_chain e'
           end
      else ErrorExit (IgnoredExplicit explicit_arg)
  end.

(** [consume_optional] for a tuple with the help action, which takes no
    argument: without explicit argument the action prints the help text
    and exits; an explicit argument is refused, unless the option is the
    short one and the argument is a run of further short options. *)
Definition consume_help_option (option_string : string)
           (explicit_arg : option string) : result :=
  match explicit_arg with
  | None => HelpExit
  | Some e =>
      let single_dash :=
        match option_string with
        | String _ (String c1 _) => negb (Ascii.eqb c1 "-")
        | _ => false
        end in
      if single_dash && negb (String.eqb e "")
      then short_option_chain e
      else ErrorExit (IgnoredExplicit e)
  end.

(** The end of [parse_args]: a missing [path] is reported first, then
    the words that could not be placed. *)
Definition finish (path : option string) (extras : list string) : result :=
  match path with
  | None => ErrorExit RequiredPath
  | Some p =>
      match extras with
      | [] => Namespace p
      | _ :: _ => ErrorExit (Unrecognized extras)
      end
  end.

(** The words after the first [--]: none of them is an option.  When
    [path] is still free the first of them fills it and the [--] is
    dropped; otherwise the [--] and all of them are left over. *)
Definition after_separator (rest : list string) (path : option string)
           (extras : list string) : result :=
  match path, rest with
  | None, p :: rest' => finish (Some p) (extras ++ rest')
  | _, _ => finish path (extras ++ "--" :: rest)
  end.

(** [_parse_known_args], word by word.  Positionals and optionals are
    consumed in the order given: the first positional word fills [path]
    (a [--] right after it is consumed with it), every later one is kept
    in [extras], and so is every unknown option; a tuple with the help
    action ends the walk at once. *)
Fixpoint walk (args : list string) (path : option string)
         (extras : list string) : result :=
  match args with
  | [] => finish path extras
  | a :: rest =>
      if String.eqb a "--" then after_separator rest path extras
      else
        match parse_optional a with
        | Positional =>
            match path with
            | None =>
                match rest with
                | sep :: rest' =>
                    if String.eqb sep "--"
                    then finish (Some a) (extras ++ rest')
                    else walk rest (Some a) extras
                | [] => walk rest (Some a) extras
                end
            | Some _ => walk rest path (extras ++ [a])
            end
        | HelpOption o e => consume_help_option o e
        | UnknownOption => walk rest path (extras ++ [a])
        end
  end.

Definition parse_args (argv : list string) : result := walk argv None [].

(** Status of [parser.exit()] after help and of [parser.error()]. *)
Definition help_status : Z := 0.
Definition error_status : Z := 2.

End Argparse.

(** ** subprocess.run (line 36) *)

Module Subprocess.

(** The first argument of [Popen]: a string or a sequence of strings. *)
Inductive popen_args : Type :=
| Str (s : string)
| Seq (l : list string).

(** What the operating system reports for a finished child: its exit
    status and what it wrote on the standard error stream, which the
    child inherits because the script passes neither [stderr=] nor
    [capture_output=]. *)
Record child : Type := Child { returncode : Z; diagnostics : string }.

Inductive exn : Type :=
| CalledProcessError (code : Z) (command : popen_args).

(** POSIX [Popen._execute_child]: a string becomes a one-element list,
    and [shell=True] puts [/bin/sh -c] in front. *)
Definition execute_child_argv (args : popen_args) (shell : bool)
  : list string :=
  let l := match args with Str s => [s] | Seq l => l end in
  if shell then ["/bin/sh"; "-c"] ++ l else l.

End Subprocess.

Import Subprocess.

(** ** What a run of the script does, as seen from outside *)

Inductive event : Type :=
| EvUsage (e : Argparse.error)     (* argparse: usage and error on stderr *)
| EvHelp                           (* argparse: help text on stdout *)
| EvSpawn (argv : list string)     (* a child process is created *)
| EvChildStderr (text : string)    (* the child writes on the shared stderr *)
| EvWait (code : Z)                (* the parent has waited for the child *)
| EvTraceback (e : exn).           (* the interpreter reports an uncaught exception *)

Record outcome (W : Type) : Type := Outcome {
  trace : list event;
  exit_status : Z;
  world : W
}.
Arguments Outcome {W} _ _ _.
Arguments trace {W} _.
Arguments exit_status {W} _.
Arguments world {W} _.

Definition is_spawn (e : event) : bool :=
  match e with EvSpawn _ => true | _ => false end.

Definition spawn_count (t : list event) : nat :=
  length (List.filter is_spawn t).

(** What the script itself writes or lets through on standard error,
    piece by piece. *)
Definition on_stderr (e : event) : bool :=
  match e with
  | EvUsage _ | EvChildStderr _ | EvTraceback _ => true
  | EvHelp | EvSpawn _ | EvWait _ => false
  end.

Definition stderr_pieces (t : list event) : list event :=
  List.filter on_stderr t.

Section Script.

(** The machine the script runs on: [W] is its state (file system,
    installed programs), and [spawn argv w] creates a process running
    [argv] and lets it finish.  Creating the process itself is taken to
    succeed: [/bin/sh] exists and the system can fork. *)
Context {W : Type}.
Variable spawn : list string -> W -> child * W.

(** [subprocess.run(args, shell=..., check=...)]: create the child,
    wait for it, and raise [CalledProcessError] when [check] is set and
    the return code is not zero. *)
Definition subprocess_run (args : popen_args) (shell check : bool) (w : W)
  : (exn + Z) * list event * W :=
  let argv := execute_child_argv args shell in
  let '(c, w') := spawn argv w in
  let t := [EvSpawn argv; EvChildStderr (diagnostics c);
            EvWait (returncode c)] in
  if check && negb (returncode c =? 0)
  then (inl (CalledProcessError (returncode c) args), t, w')
  else (inr (returncode c), t, w').

(** Lines 11 to 36 for a parsed [path].  The script ends after the
    call: the interpreter exits with 0 when the call returns, and with
    1, after a traceback, when the exception is not caught. *)
Definition run (path : string) (w : W) : outcome W :=
  match subprocess_run (Str (cmd_line path)) true true w with
  | (inr _, t, w') => Outcome t 0 w'
  | (inl e, t, w') => Outcome (t ++ [EvTraceback e]) 1 w'
  end.

(** The whole script. *)
Definition main (argv : list string) (w : W) : outcome W :=
  match Argparse.parse_args argv with
  | Argparse.Namespace path => run path w
  | Argparse.HelpExit => Outcome [EvHelp] Argparse.help_status w
  | Argparse.ErrorExit e => Outcome [EvUsage e] Argparse.error_status w
  end.

End Script.

(** ** A machine to run the script on

    The script leaves everything after the call of [subprocess.run] to
    two programs that are not part of it: the shell that interprets the
    command string and the object-editing tool.  [Posix.spawn]
    instantiates the parameter [spawn] of the script with a small model
    of both. *)

Module Posix.

Definition is_blank (c : ascii) : bool :=
  Ascii.eqb c " " || Ascii.eqb c "009" || Ascii.eqb c "010".

(** Characters with a meaning of their own for the shell: operators,
    quoting, expansions, patterns and comments. *)
Definition is_special (c : ascii) : bool :=
  existsb (Ascii.eqb c) (list_ascii_of_string "|&;<>()$`\'*?[#~!{}")
  || Ascii.eqb c "034".

Definition plain_char (c : ascii) : bool :=
  negb (is_blank c) && negb (is_special c).

(** A word the shell passes on as it is: not empty, no blank and no
    special character. *)
Definition plain_word (s : string) : Prop :=
  s <> "" /\ forallb plain_char (list_ascii_of_string s) = true.

Definition flush (w : string) : list string :=
  match w with "" => [] | String _ _ => [w] end.

(** Field splitting of the shell, for a command string without special
    characters: [fields s] is the word that [s] starts with (empty when
    [s] starts with a blank) and the words after it. *)
Fixpoint fields (s : string) : string * list string :=
  match s with
  | "" => ("", [])
  | String c s' =>
      let '(w, ws) := fields s' in
      if is_blank c then ("", flush w ++ ws) else (String c w, ws)
  end.

(** The argument vector that [/bin/sh -c s] executes when [s] is one
    simple command: the blank-separated words of [s]. *)
Definition shell_words (s : string) : list string :=
  let '(w, ws) := fields s in flush w ++ ws.

Inductive file : Type :=
| ObjectFile (symbols : list string)  (* the names in its symbol table *)
| OtherFile.                          (* not an object file *)

Record machine : Type := Machine {
  has_objcopy : bool;                 (* is objcopy on the search path *)
  files : gmap string file
}.

(** [old=new], cut at the first [=]. *)
Fixpoint split_eq (s : string) : option (string * string) :=
  match s with
  | "" => None
  | String c s' =>
      if Ascii.eqb c "=" then Some ("", s')
      else match split_eq s' with
           | Some (o, n) => Some (String c o, n)
           | None => None
           end
  end.

(** The arguments the specification gives the tool:
    [--redefine-sym old=new], any number of times, then the file. *)
Fixpoint objcopy_parse (args : list string)
  : option (list (string * string) * string) :=
  match args with
  | [] => None
  | [target] => Some ([], target)
  | opt :: spec :: rest =>
      if String.eqb opt "--redefine-sym" then
        match split_eq spec, objcopy_parse rest with
        | Some e, Some (table, target) => Some (e :: table, target)
        | _, _ => None
        end
      else None
  end.

(** The new name of one symbol: the one its table entry gives, or its
    own when no entry matches. *)
Definition redefine (table : list (string * string)) (name : string)
  : string :=
  match find (fun e => String.eqb (fst e) name) table with
  | Some e => snd e
  | None => name
  end.

(** Modelled from the spec: the external object-editing tool, which is
    not part of the repository.  It rewrites the matching symbol names
    of the given object file in place, leaves the other symbols as
    they are, and reports failure by a non-zero status and a text on
    its error stream when the path is invalid or the file is not an
    object file. *)
Definition objcopy (args : list string) (m : machine) : child * machine :=
  match objcopy_parse args with
  | None => (Child 1 "objcopy: bad arguments", m)
  | Some (table, target) =>
      match files m !! target with
      | None =>
          (Child 1 ("objcopy: '" +:+ target +:+ "': No such file"), m)
      | Some OtherFile =>
          (Child 1 ("objcopy: " +:+ target +:+ ": file format not recognized"), m)
      | Some (ObjectFile symbols) =>
          (Child 0 "",
           Machine (has_objcopy m)
             (<[target := ObjectFile (map (redefine table) symbols)]>
                (files m)))
      end
  end.

(** Running a program by name: only [objcopy] can be installed. *)
Definition run_program (argv : list string) (m : machine)
  : child * machine :=
  match argv with
  | [] => (Child 0 "", m)
  | prog :: args =>
      if String.eqb prog "objcopy" && has_objcopy m
      then objcopy args m
      else (Child 127 ("/bin/sh: 1: " +:+ prog +:+ ": not found"), m)
  end.

(** [/bin/sh -c command]: the status of the shell is the status of the
    command, and 127 when the command is not found. *)
Definition sh_c (command : string) (m : machine) : child * machine :=
  run_program (shell_words command) m.

Definition spawn (argv : list string) (m : machine) : child * machine :=
  match argv with
  | [sh; c; command] =>
      if String.eqb sh "/bin/sh" && String.eqb c "-c"
      then sh_c command m
      else run_program argv m
  | _ => run_program argv m
  end.

End Posix.

(** A machine on which every child ends with the given status and
    diagnostic text. *)
Definition child_ends (code : Z) (text : string)
  : list string -> unit -> child * unit :=
  fun _ w => (Child code text, w).

(** ** Vocabulary of the statements *)

(** The argument vector [run path] asks the operating system to execute,
    and the child the machine answers with. *)
Definition run_argv (path : string) : list string :=
  ["/bin/sh"; "-c"; cmd_line path].

Definition child_of {W : Type} (spawn : list string -> W -> child * W)
           (path : string) (w : W) : child :=
  fst (spawn (run_argv path) w).

(** The events of a run whose call of [subprocess.run] saw [c]. *)
Definition call_events (path : string) (c : child) : list event :=
  [EvSpawn (run_argv path); EvChildStderr (diagnostics c);
   EvWait (returncode c)].

Definition mem (x : string) (l : list string) : bool :=
  existsb (String.eqb x) l.

(** Reading a command line of the script.  The parser classifies the
    words ahead of the first [--] and takes every word after it as a
    positional. *)
Fixpoint before_separator (argv : list string) : list string :=
  match argv with
  | [] => []
  | a :: rest =>
      if String.eqb a "--" then [] else a :: before_separator rest
  end.

Fixpoint after_separator_words (argv : list string) : list string :=
  match argv with
  | [] => []
  | a :: rest =>
      if String.eqb a "--" then rest else after_separator_words rest
  end.

Definition is_positional (a : string) : bool :=
  match Argparse.parse_optional a with
  | Argparse.Positional => true
  | _ => false
  end.

(** The positional words of a command line, and its option-like words
    (unknown options, and uses of the help option). *)
Definition positional_words (argv : list string) : list string :=
  List.filter is_positional (before_separator argv)
  ++ after_separator_words argv.

Definition option_words (argv : list string) : list string :=
  List.filter (fun a => negb (is_positional a)) (before_separator argv).

(** Does the parser act on the help option: ahead of the first [--],
    the first word that names the help action is a well-formed request
    for help. *)
Fixpoint help_reached (argv : list string) : bool :=
  match argv with
  | [] => false
  | a :: rest =>
      if String.eqb a "--" then false
      else
        match Argparse.parse_optional a with
        | Argparse.HelpOption o e =>
            match Argparse.consume_help_option o e with
            | Argparse.HelpExit => true
            | _ => false
            end
        | _ => help_reached rest
        end
  end.

(** The command lines the parser accepts with [path = p]. *)
Definition accepted (argv : list string) (p : string) : Prop :=
  (argv = [p] /\ is_positional p = true)
  \/ (argv = [p; "--"] /\ is_positional p = true)
  \/ argv = ["--"; p].

(** The words the shell makes of the flags: each flag of the script
    holds a blank and so arrives at the tool as two arguments. *)
Definition tool_flag_words : list string :=
  List.concat
    (map (fun x => ["--redefine-sym"; x +:+ "=__rust" +:+ x]) syms).

Definition no_blank (s : string) : Prop :=
  forallb (fun c => negb (Posix.is_blank c)) (list_ascii_of_string s) = true.

Definition has_blank (s : string) : Prop :=
  exists c, In c (list_ascii_of_string s) /\ Posix.is_blank c = true.

(** The name a symbol has after the renaming the script asks for. *)
Definition rename_symbol (s : string) : string :=
  if mem s syms then rename_prefix +:+ s else s.

(** ** Strings and lists *)

Lemma mem_In (x : string) (l : list string) : mem x l = true <-> In x l.
Proof.
  unfold mem. rewrite existsb_exists. split.
  - intros (y & Hy & E). apply String.eqb_eq in E. now subst.
  - intros H. exists x. split; [exact H | apply String.eqb_refl].
Qed.

Lemma append_cons (x : ascii) (a b : string) :
  String x a +:+ b = String x (a +:+ b).
Proof. reflexivity. Qed.

Lemma append_assoc (a b c : string) : (a +:+ b) +:+ c = a +:+ b +:+ c.
Proof.
  induction a as [|x a IH]; [reflexivity |].
  rewrite !append_cons. now f_equal.
Qed.

Lemma append_empty_r (a : string) : a +:+ "" = a.
Proof.
  induction a as [|x a IH]; [reflexivity |].
  rewrite append_cons. now f_equal.
Qed.

(** [sep.join(l + [x])] for a non-empty [l]. *)
Lemma join_snoc (sep : string) (l : list string) (x : string) :
  l <> [] -> Py.join sep (l ++ [x]) = Py.join sep l +:+ sep +:+ x.
Proof.
  unfold Py.join. induction l as [|y l IH]; intros Hl; [congruence |].
  destruct l as [|z l].
  - reflexivity.
  - change (String.concat sep ((y :: z :: l) ++ [x]))
      with (y +:+ sep +:+ String.concat sep ((z :: l) ++ [x])).
    rewrite IH by discriminate.
    change (String.concat sep (y :: z :: l))
      with (y +:+ sep +:+ String.concat sep (z :: l)).
    now rewrite !append_assoc.
Qed.

(** The command line is a fixed text, a blank, and the path. *)
Lemma cmd_line_path (p : string) :
  cmd_line p = Py.join " " ("objcopy" :: objcopy_args) +:+ " " +:+ p.
Proof.
  unfold cmd_line, cmd.
  change (["objcopy"] ++ objcopy_args ++ [p])
    with (("objcopy" :: objcopy_args) ++ [p]).
  now rewrite join_snoc.
Qed.

(** ** The symbol list *)

Lemma syms_NoDup : NoDup syms.
Proof. apply (bool_decide_unpack _). vm_compute. reflexivity. Qed.

Lemma rename_table_fst : map fst rename_table = syms.
Proof. reflexivity. Qed.

Lemma rename_table_snd :
  map snd rename_table = map (fun x => rename_prefix +:+ x) syms.
Proof. reflexivity. Qed.

Lemma rename_table_prefixed :
  Forall (fun e => snd e = rename_prefix +:+ fst e) rename_table.
Proof.
  unfold rename_table. apply List.Forall_forall. intros e He.
  apply in_map_iff in He. destruct He as (x & <- & _). reflexivity.
Qed.

(** No renamed name is one of the original names. *)
Lemma renamed_not_original (o r : string) :
  In o syms -> In r (map snd rename_table) -> r <> o.
Proof.
  intros Ho Hr E. subst o.
  assert (H : forallb (fun r => negb (mem r syms)) (map snd rename_table)
              = true) by (vm_compute; reflexivity).
  rewrite forallb_forall in H. specialize (H r Hr).
  apply mem_In in Ho. rewrite Ho in H. discriminate.
Qed.

(** ** The argument parser *)

Lemma walk_cons (a : string) (rest : list string) (path : option string)
      (extras : list string) :
  Argparse.walk (a :: rest) path extras =
    if String.eqb a "--" then Argparse.after_separator rest path extras
    else
      match Argparse.parse_optional a with
      | Argparse.Positional =>
          match path with
          | None =>
              match rest with
              | sep :: rest' =>
                  if String.eqb sep "--"
                  then Argparse.finish (Some a) (extras ++ rest')
                  else Argparse.walk rest (Some a) extras
              | [] => Argparse.walk rest (Some a) extras
              end
          | Some _ => Argparse.walk rest path (extras ++ [a])
          end
      | Argparse.HelpOption o e => Argparse.consume_help_option o e
      | Argparse.UnknownOption => Argparse.walk rest path (extras ++ [a])
      end.
Proof. reflexivity. Qed.

Lemma words_cons (a : string) (rest : list string) :
  String.eqb a "--" = false ->
  positional_words (a :: rest) =
    (if is_positional a then [a] else []) ++ positional_words rest
  /\ option_words (a :: rest) =
       (if is_positional a then [] else [a]) ++ option_words rest.
Proof.
  intros Ea. unfold positional_words, option_words. simpl. rewrite Ea.
  simpl. destruct (is_positional a); split; reflexivity.
Qed.

Lemma words_separator (rest : list string) :
  positional_words ("--" :: rest) = rest /\ option_words ("--" :: rest) = [].
Proof. split; reflexivity. Qed.

Lemma is_positional_Positional (a : string) :
  Argparse.parse_optional a = Argparse.Positional -> is_positional a = true.
Proof. unfold is_positional. now intros ->. Qed.

Lemma is_positional_not_separator (a : string) :
  is_positional a = true -> String.eqb a "--" = false.
Proof.
  intros H. destruct (String.eqb a "--") eqn:E; [|reflexivity].
  apply String.eqb_eq in E. subst a. discriminate H.
Qed.

Lemma finish_Namespace (path : option string) (extras : list string)
      (p : string) :
  Argparse.finish path extras = Argparse.Namespace p ->
  path = Some p /\ extras = [].
Proof.
  unfold Argparse.finish. destruct path as [q|]; [|discriminate].
  destruct extras; [|discriminate]. intros H. injection H as ->. now split.
Qed.

Lemma finish_not_help (path : option string) (extras : list string) :
  Argparse.finish path extras <> Argparse.HelpExit.
Proof.
  unfold Argparse.finish. destruct path; [destruct extras|]; discriminate.
Qed.

Lemma after_separator_not_help (rest : list string) (path : option string)
      (extras : list string) :
  Argparse.after_separator rest path extras <> Argparse.HelpExit.
Proof.
  unfold Argparse.after_separator.
  destruct path; [|destruct rest]; apply finish_not_help.
Qed.

(** The help action never gives a namespace. *)
Lemma short_option_chain_not_Namespace (e p : string) :
  Argparse.short_option_chain e <> Argparse.Namespace p.
Proof.
  induction e as [|c e IH]; [discriminate |].
  change (Argparse.short_option_chain (String c e))
    with (if Argparse.str_in (String "-" (String c ""))
               Argparse.option_string_actions
          then match e with
               | "" => Argparse.HelpExit
               | String _ _ => Argparse.short_option_chain e
               end
          else Argparse.ErrorExit (Argparse.IgnoredExplicit (String c e))).
  destruct (Argparse.str_in (String "-" (String c ""))
              Argparse.option_string_actions); [|discriminate].
  destruct e; [discriminate | exact IH].
Qed.

Lemma consume_help_option_not_Namespace (o : string) (e : option string)
      (p : string) :
  Argparse.consume_help_option o e <> Argparse.Namespace p.
Proof.
  unfold Argparse.consume_help_option. destruct e as [e|]; [|discriminate].
  destruct (_ && _); [apply short_option_chain_not_Namespace | discriminate].
Qed.

(** What a namespace tells about the command line: nothing was left
    over, no word looked like an option, and one positional word at most
    was still to come. *)
Lemma walk_Namespace (args : list string) :
  forall (path : option string) (extras : list string) (p : string),
    Argparse.walk args path extras = Argparse.Namespace p ->
    extras = [] /\ option_words args = []
    /\ ((path = None /\ positional_words args = [p])
        \/ (path = Some p /\ positional_words args = [])).
Proof.
  induction args as [|a rest IH]; intros path extras p H.
  - apply finish_Namespace in H as [-> ->]. repeat split. now right.
  - rewrite walk_cons in H. destruct (String.eqb a "--") eqn:Ea.
    + apply String.eqb_eq in Ea. subst a.
      unfold Argparse.after_separator in H.
      destruct path as [q|]; [|destruct rest as [|p' rest']];
        apply finish_Namespace in H as [Hp He]; try discriminate Hp.
      * apply app_eq_nil in He as [_ He]. discriminate He.
      * injection Hp as ->. apply app_eq_nil in He as [-> ->].
        repeat split. now left.
    + destruct (words_cons a rest Ea) as [Wp Wo].
      destruct (Argparse.parse_optional a) as [|o e|] eqn:Ep.
      * rewrite (is_positional_Positional a Ep) in Wp, Wo.
        rewrite Wp, Wo. simpl.
        destruct path as [q|].
        { apply IH in H as [He _].
          apply app_eq_nil in He as [_ He]. discriminate He. }
        destruct rest as [|sep rest'].
        { apply finish_Namespace in H as [Hp ->]. injection Hp as ->.
          repeat split. now left. }
        destruct (String.eqb sep "--") eqn:Es.
        { apply String.eqb_eq in Es. subst sep.
          apply finish_Namespace in H as [Hp He]. injection Hp as ->.
          apply app_eq_nil in He as [-> ->]. repeat split. now left. }
        apply IH in H as (-> & Ho & [[Hn _]|[Hp Hw]]); [discriminate Hn |].
        injection Hp as ->. rewrite Hw. repeat split; [exact Ho | now left].
      * now apply consume_help_option_not_Namespace in H.
      * apply IH in H as [He _].
        apply app_eq_nil in He as [_ He]. discriminate He.
Qed.

Lemma help_reached_cons (a : string) (rest : list string) :
  help_reached (a :: rest) =
    if String.eqb a "--" then false
    else
      match Argparse.parse_optional a with
      | Argparse.HelpOption o e =>
          match Argparse.consume_help_option o e with
          | Argparse.HelpExit => true
          | _ => false
          end
      | _ => help_reached rest
      end.
Proof. reflexivity. Qed.

(** The walk ends with the help text exactly when the help option is
    reached. *)
Lemma walk_HelpExit (args : list string) :
  forall (path : option string) (extras : list string),
    Argparse.walk args path extras = Argparse.HelpExit <->
    help_reached args = true.
Proof.
  induction args as [|a rest IH]; intros path extras.
  - split; [intros H; now apply finish_not_help in H | discriminate].
  - rewrite walk_cons, help_reached_cons.
    destruct (String.eqb a "--") eqn:Ea.
    { split; [intros H; now apply after_separator_not_help in H
             | discriminate]. }
    destruct (Argparse.parse_optional a) as [|o e|] eqn:Ep.
    + destruct path as [q|]; [apply IH |].
      destruct rest as [|sep rest']; [apply IH |].
      destruct (String.eqb sep "--") eqn:Es; [|apply IH].
      rewrite help_reached_cons, Es.
      split; [intros H; now apply finish_not_help in H | discriminate].
    + destruct (Argparse.consume_help_option o e);
        split; congruence.
    + apply IH.
Qed.

Lemma no_words (argv : list string) :
  option_words argv = [] -> positional_words argv = [] ->
  argv = [] \/ argv = ["--"].
Proof.
  destruct argv as [|a rest]; [now left |]. intros Ho Hp.
  destruct (String.eqb a "--") eqn:Ea.
  - apply String.eqb_eq in Ea. subst a.
    destruct (words_separator rest) as [Wp _]. rewrite Wp in Hp.
    subst rest. now right.
  - destruct (words_cons a rest Ea) as [Wp Wo].
    rewrite Wp in Hp. rewrite Wo in Ho.
    destruct (is_positional a); discriminate.
Qed.

(** The parser returns a namespace for three shapes of command line
    only: the path alone, the path followed by [--], and [--] followed
    by the path, which may then be any word. *)
Lemma parse_args_Namespace_iff (argv : list string) (p : string) :
  Argparse.parse_args argv = Argparse.Namespace p <-> accepted argv p.
Proof.
  unfold Argparse.parse_args, accepted. split.
  - intros H. apply walk_Namespace in H.
    destruct H as (_ & Ho & [[_ Hp]|[Hn _]]); [|discriminate Hn].
    destruct argv as [|a rest]; [discriminate Hp |].
    destruct (String.eqb a "--") eqn:Ea.
    + apply String.eqb_eq in Ea. subst a.
      destruct (words_separator rest) as [Wp _]. rewrite Wp in Hp.
      subst rest. now right; right.
    + destruct (words_cons a rest Ea) as [Wp Wo].
      rewrite Wp in Hp. rewrite Wo in Ho.
      destruct (is_positional a) eqn:Ia; [|discriminate Ho].
      simpl in Hp, Ho. injection Hp as -> Hp.
      destruct (no_words rest Ho Hp) as [-> | ->]; auto.
  - intros [[-> Hp]|[[-> Hp]| ->]]; [| |reflexivity].
    + rewrite walk_cons, (is_positional_not_separator p Hp).
      unfold is_positional in Hp.
      now destruct (Argparse.parse_optional p).
    + rewrite walk_cons, (is_positional_not_separator p Hp).
      unfold is_positional in Hp.
      now destruct (Argparse.parse_optional p).
Qed.

(** The cases of Python 3.11 that set this parser apart from a plain
    split into arguments and options. *)
Example parse_args_cases :
  Argparse.parse_args ["--he"] = Argparse.HelpExit
  /\ Argparse.parse_args ["-hh"] = Argparse.HelpExit
  /\ Argparse.parse_args ["a.o"; "b.o"; "-x"; "-h"] = Argparse.HelpExit
  /\ Argparse.parse_args ["-hx"; "-h"] =
       Argparse.ErrorExit (Argparse.IgnoredExplicit "x")
  /\ Argparse.parse_args ["--help=x"; "-h"] =
       Argparse.ErrorExit (Argparse.IgnoredExplicit "x")
  /\ Argparse.parse_args ["a.o"; "-hx"; "b.o"] =
       Argparse.ErrorExit (Argparse.IgnoredExplicit "x")
  /\ Argparse.parse_args ["-x"] = Argparse.ErrorExit Argparse.RequiredPath
  /\ Argparse.parse_args ["a.o"; "-x"; "b.o"] =
       Argparse.ErrorExit (Argparse.Unrecognized ["-x"; "b.o"])
  /\ Argparse.parse_args ["--"; "a.o"] = Argparse.Namespace "a.o"
  /\ Argparse.parse_args ["a.o"; "--"] = Argparse.Namespace "a.o"
  /\ Argparse.parse_args ["--"; "-h"] = Argparse.Namespace "-h"
  /\ Argparse.parse_args ["-1"] = Argparse.Namespace "-1"
  /\ Argparse.parse_args ["--"] = Argparse.ErrorExit Argparse.RequiredPath.
Proof. repeat split. Qed.
(** ** The script, step by step *)

Section ScriptFacts.

Context {W : Type}.
Variable spawn : list string -> W -> child * W.

(** [run] in one equation: the call, then the way the interpreter
    ends. *)
Lemma run_eq (p : string) (w : W) :
  run spawn p w =
    let c := child_of spawn p w in
    let w' := snd (spawn (run_argv p) w) in
    if returncode c =? 0
    then Outcome (call_events p c) 0 w'
    else Outcome (call_events p c ++
                    [EvTraceback
                       (CalledProcessError (returncode c) (Str (cmd_line p)))])
                 1 w'.
Proof.
  unfold run, subprocess_run, child_of, call_events, run_argv. simpl.
  destruct (spawn _ w) as [c w']. simpl.
  destruct (returncode c =? 0); reflexivity.
Qed.

End ScriptFacts.

(** The two ways a run ends: the child returned 0, or it did not. *)
Ltac run_cases :=
  rewrite run_eq; simpl;
  match goal with
  | |- context [returncode ?c =? 0] =>
      let E := fresh "Hcode" in destruct (returncode c =? 0) eqn:E; simpl
  end.

Section TraceFacts.

Context {W : Type}.
Variable spawn : list string -> W -> child * W.

Lemma run_trace (p : string) (w : W) :
  exists rest,
    trace (run spawn p w) = call_events p (child_of spawn p w) ++ rest
    /\ spawn_count rest = 0%nat.
Proof.
  run_cases.
  - exists []. split; reflexivity.
  - eexists. split; reflexivity.
Qed.

Lemma run_spawn_count (p : string) (w : W) :
  spawn_count (trace (run spawn p w)) = 1%nat.
Proof. run_cases; reflexivity. Qed.

Lemma run_first_event (p : string) (w : W) :
  head (trace (run spawn p w)) = Some (EvSpawn (run_argv p)).
Proof. run_cases; reflexivity. Qed.

End TraceFacts.

(** ** The shell *)

Lemma flush_nonempty (w : string) : w <> "" -> Posix.flush w = [w].
Proof. destruct w; [congruence | reflexivity]. Qed.

Lemma plain_char_not_blank (c : ascii) :
  Posix.plain_char c = true -> Posix.is_blank c = false.
Proof.
  unfold Posix.plain_char. intros H. apply andb_prop in H.
  destruct H as [H _]. now apply negb_true_iff in H.
Qed.

(** A word without blanks is one field. *)
Lemma fields_plain (p : string) :
  forallb Posix.plain_char (list_ascii_of_string p) = true ->
  Posix.fields p = (p, []).
Proof.
  induction p as [|c p IH]; simpl; intros H; [reflexivity |].
  apply andb_prop in H. destruct H as [Hc Hp].
  rewrite (IH Hp), (plain_char_not_blank _ Hc). reflexivity.
Qed.

(** Appending a blank and a plain word appends one field. *)
Lemma fields_snoc (a p : string) :
  Posix.plain_word p ->
  Posix.fields (a +:+ " " +:+ p) =
    (fst (Posix.fields a), snd (Posix.fields a) ++ [p]).
Proof.
  intros [Hne Hp]. induction a as [|c a IH].
  - change ("" +:+ " " +:+ p) with (String " " p).
    simpl. rewrite (fields_plain _ Hp). simpl.
    rewrite flush_nonempty by exact Hne. reflexivity.
  - rewrite append_cons. simpl. rewrite IH.
    destruct (Posix.fields a) as [w ws]. simpl.
    destruct (Posix.is_blank c); simpl; [|reflexivity].
    now rewrite <- app_assoc.
Qed.

Lemma shell_words_snoc (a p : string) :
  Posix.plain_word p ->
  Posix.shell_words (a +:+ " " +:+ p) = Posix.shell_words a ++ [p].
Proof.
  intros Hp. unfold Posix.shell_words. rewrite (fields_snoc _ _ Hp).
  destruct (Posix.fields a) as [w ws]. simpl. now rewrite <- app_assoc.
Qed.

(** For a plain path the tool receives the script's flags, each as two
    words, and the path as its last argument. *)
Lemma shell_words_cmd_line (p : string) :
  Posix.plain_word p ->
  Posix.shell_words (cmd_line p) = "objcopy" :: tool_flag_words ++ [p].
Proof.
  intros Hp. rewrite cmd_line_path, (shell_words_snoc _ _ Hp).
  reflexivity.
Qed.

(** No field holds a blank. *)
Lemma fields_no_blank (s : string) :
  no_blank (fst (Posix.fields s)) /\ Forall no_blank (snd (Posix.fields s)).
Proof.
  induction s as [|c s [IHw IHws]]; simpl.
  - split; [reflexivity | constructor].
  - destruct (Posix.fields s) as [w ws]. simpl in *.
    destruct (Posix.is_blank c) eqn:Hc; simpl.
    + split; [reflexivity |].
      destruct w as [|x w]; simpl; [exact IHws | now constructor].
    + split; [|exact IHws].
      unfold no_blank in *. simpl. now rewrite Hc.
Qed.

Lemma shell_words_no_blank (s : string) :
  Forall no_blank (Posix.shell_words s).
Proof.
  unfold Posix.shell_words. pose proof (fields_no_blank s) as [Hw Hws].
  destruct (Posix.fields s) as [w ws]. simpl in *.
  destruct w as [|x w]; simpl; [exact Hws | now constructor].
Qed.

Lemma has_blank_not_no_blank (s : string) : has_blank s -> ~ no_blank s.
Proof.
  intros (c & Hin & Hc) H. unfold no_blank in H.
  rewrite forallb_forall in H. specialize (H c Hin).
  rewrite Hc in H. discriminate.
Qed.

(** A path with a blank in it never reaches the tool as one argument. *)
Lemma blank_path_is_split (p : string) :
  has_blank p -> ~ In p (Posix.shell_words (cmd_line p)).
Proof.
  intros Hb Hin.
  pose proof (shell_words_no_blank (cmd_line p)) as H.
  rewrite List.Forall_forall in H.
  exact (has_blank_not_no_blank p Hb (H p Hin)).
Qed.

(** ** The object-editing tool *)

Lemma objcopy_parse_flags (p : string) :
  Posix.objcopy_parse (tool_flag_words ++ [p]) = Some (rename_table, p).
Proof. reflexivity. Qed.

Lemma find_entry (f : string -> string) (l : list string) (s : string) :
  find (fun e => String.eqb (fst e) s) (map (fun x => (x, f x)) l) =
    if mem s l then Some (s, f s) else None.
Proof.
  unfold mem. induction l as [|x l IH]; simpl; [reflexivity |].
  rewrite (String.eqb_sym s x).
  destruct (String.eqb x s) eqn:E; simpl; [|exact IH].
  apply String.eqb_eq in E. now subst.
Qed.

(** Renaming with the table of the script: an original name gets the
    prefix, any other name stays. *)
Lemma redefine_rename_table (s : string) :
  Posix.redefine rename_table s =
    if mem s syms then rename_prefix +:+ s else s.
Proof.
  unfold Posix.redefine, rename_table. rewrite find_entry.
  now destruct (mem s syms).
Qed.

Lemma renamed_not_mem (s : string) :
  mem s syms = true -> mem (rename_prefix +:+ s) syms = false.
Proof.
  intros Hs. destruct (mem (rename_prefix +:+ s) syms) eqn:E; [|reflexivity].
  apply mem_In in E. apply mem_In in Hs. exfalso.
  apply (renamed_not_original (rename_prefix +:+ s) (rename_prefix +:+ s));
    [exact E | | reflexivity].
  rewrite rename_table_snd.
  now apply (List.in_map (fun x => rename_prefix +:+ x)).
Qed.

Lemma redefine_idempotent (s : string) :
  Posix.redefine rename_table (Posix.redefine rename_table s) =
    Posix.redefine rename_table s.
Proof.
  rewrite (redefine_rename_table s).
  destruct (mem s syms) eqn:E; rewrite redefine_rename_table.
  - now rewrite (renamed_not_mem s E).
  - now rewrite E.
Qed.

Lemma redefine_not_original (s o : string) :
  In o syms -> Posix.redefine rename_table s <> o.
Proof.
  intros Ho. rewrite redefine_rename_table.
  destruct (mem s syms) eqn:E; intros <-.
  - apply mem_In in Ho. rewrite (renamed_not_mem s E) in Ho. discriminate.
  - apply mem_In in Ho. congruence.
Qed.

(** What the machine answers to the command of the script, for a plain
    path. *)
Lemma spawn_run_argv (p : string) (m : Posix.machine) :
  Posix.plain_word p ->
  Posix.spawn (run_argv p) m =
    if Posix.has_objcopy m
    then Posix.objcopy (tool_flag_words ++ [p]) m
    else (Child 127 "/bin/sh: 1: objcopy: not found", m).
Proof.
  intros Hp. unfold run_argv, Posix.spawn, Posix.sh_c, Posix.run_program.
  simpl. rewrite (shell_words_cmd_line p Hp). reflexivity.
Qed.

(** A run on a plain path ends with status 0 exactly when the tool is
    installed and the path names an object file; the file then holds the
    renamed symbols. *)
Lemma posix_run_success (p : string) (m : Posix.machine) :
  Posix.plain_word p ->
  exit_status (run Posix.spawn p m) = 0 ->
  exists symbols,
    Posix.has_objcopy m = true
    /\ Posix.files m !! p = Some (Posix.ObjectFile symbols)
    /\ world (run Posix.spawn p m) =
         Posix.Machine true
           (<[p := Posix.ObjectFile
                     (map (Posix.redefine rename_table) symbols)]>
              (Posix.files m)).
Proof.
  intros Hp. rewrite run_eq. unfold child_of.
  rewrite (spawn_run_argv p m Hp).
  unfold Posix.objcopy. rewrite objcopy_parse_flags.
  destruct (Posix.has_objcopy m); simpl; [|discriminate].
  destruct (Posix.files m !! p) as [[symbols|]|]; simpl;
    try discriminate.
  intros _. now exists symbols.
Qed.

Lemma posix_run_object (p : string) (m : Posix.machine)
      (symbols : list string) :
  Posix.plain_word p ->
  Posix.has_objcopy m = true ->
  Posix.files m !! p = Some (Posix.ObjectFile symbols) ->
  run Posix.spawn p m =
    Outcome (call_events p (Child 0 "")) 0
      (Posix.Machine true
         (<[p := Posix.ObjectFile
                   (map (Posix.redefine rename_table) symbols)]>
            (Posix.files m))).
Proof.
  intros Hp Ht Hf. rewrite run_eq. unfold child_of.
  rewrite (spawn_run_argv p m Hp), Ht.
  unfold Posix.objcopy. rewrite objcopy_parse_flags, Hf, Ht. reflexivity.
Qed.

(** ** The claims *)

(** C1, as amended: whatever status the child ends with, the script
    exits with 0 when that status is 0 and with 1 otherwise, because
    [check=True] turns a non-zero status into [CalledProcessError], which
    nothing catches.  The status of the tool is passed on unchanged only
    when it is 0 or 1. *)
Theorem exit_status_zero_or_one {W : Type}
        (spawn : list string -> W -> child * W) (p : string) (w : W) :
  exit_status (run spawn p w) =
    if returncode (child_of spawn p w) =? 0 then 0 else 1.
Proof. run_cases; reflexivity. Qed.

(** C1, as stated, fails: a child that ends with status 2 makes the
    script exit with status 1. *)
Lemma exit_status_not_propagated :
  returncode (child_of (child_ends 2 "") "libfoo.o" tt) = 2
  /\ exit_status (run (child_ends 2 "") "libfoo.o" tt) = 1
  /\ exit_status (run (child_ends 2 "") "libfoo.o" tt)
     <> returncode (child_of (child_ends 2 "") "libfoo.o" tt).
Proof. repeat split. vm_compute. discriminate. Qed.

(** C2: for every path the command is the tool name [objcopy], then one
    flag [--redefine-sym <original>=<renamed>] for each of the 18 table
    entries, the renamed name being [__rust] put before the original one,
    then the path as last element; for [libfoo.o] the command line holds
    [--redefine-sym __addsf3=__rust__addsf3] and ends in [libfoo.o]. *)
Theorem cmd_shape (p : string) :
  cmd p = ["objcopy"] ++ map flag_of_entry rename_table ++ [p]
  /\ length rename_table = 18%nat
  /\ Forall (fun e => snd e = "__rust" +:+ fst e) rename_table
  /\ In ("__addsf3", "__rust__addsf3") rename_table
  /\ last (cmd p) = Some p
  /\ Py.contains (cmd_line "libfoo.o")
       "--redefine-sym __addsf3=__rust__addsf3"
  /\ Py.endswith (cmd_line "libfoo.o") "libfoo.o".
Proof.
  split; [reflexivity |].
  split; [reflexivity |].
  split; [exact rename_table_prefixed |].
  split; [now left |].
  split.
  - unfold cmd. rewrite app_assoc. apply last_snoc.
  - split.
    + exists "objcopy ". eexists. reflexivity.
    + exists (Py.join " " ("objcopy" :: objcopy_args) +:+ " ").
      rewrite append_assoc. apply cmd_line_path.
Qed.


(** C4: there is a path, [my file.o], that the tool does not receive as
    its single last argument: the string executed is the plain blank-join
    of the pieces, the same string as for the two paths [my] and
    [file.o]; it holds no character the shell treats specially, and the
    shell cuts it at every blank. *)
Theorem blank_path_not_one_argument :
  exists p : string,
    has_blank p
    /\ (forall m : Posix.machine,
          head (trace (run Posix.spawn p m)) =
            Some (EvSpawn ["/bin/sh"; "-c"; cmd_line p]))
    /\ cmd_line p =
         Py.join " " (["objcopy"] ++ objcopy_args ++ ["my"; "file.o"])
    /\ forallb (fun c => negb (Posix.is_special c))
         (list_ascii_of_string (cmd_line p)) = true
    /\ Posix.shell_words (cmd_line p) =
         "objcopy" :: tool_flag_words ++ ["my"; "file.o"]
    /\ last (Posix.shell_words (cmd_line p)) <> Some p
    /\ ~ In p (Posix.shell_words (cmd_line p)).
Proof.
  exists "my file.o".
  assert (Hb : has_blank "my file.o").
  { exists " "%char. split; [|reflexivity].
    simpl. right. right. now left. }
  split; [exact Hb |].
  split; [intros m; apply run_first_event |].
  split; [reflexivity |].
  split; [reflexivity |].
  split; [reflexivity |].
  split; [|exact (blank_path_is_split _ Hb)].
  vm_compute. discriminate.
Qed.

(** C5, as amended: when the child ends with a non-zero status (the
    tool failed, or the shell did not find it and ended with 127), the
    script exits with a non-zero status, and what the child wrote on the
    error stream is there unchanged.  The failure itself is turned into
    [CalledProcessError], which nothing catches: after the text of the
    child the error stream holds the traceback of the interpreter for
    that exception. *)
Theorem failure_surfaces_diagnostics {W : Type}
        (spawn : list string -> W -> child * W) (p : string) (w : W) :
  returncode (child_of spawn p w) <> 0 ->
  exit_status (run spawn p w) <> 0
  /\ stderr_pieces (trace (run spawn p w)) =
       [EvChildStderr (diagnostics (child_of spawn p w));
        EvTraceback
          (CalledProcessError (returncode (child_of spawn p w))
             (Str (cmd_line p)))].
Proof.
  intros Hc. run_cases.
  - apply Z.eqb_eq in Hcode. contradiction.
  - split; [discriminate | reflexivity].
Qed.

(** C5 on a machine without [objcopy]: the shell ends with 127 and its
    message is passed through. *)
Lemma failure_surfaces_diagnostics_witness :
  exit_status (run Posix.spawn "libfoo.o" (Posix.Machine false ∅)) <> 0
  /\ stderr_pieces (trace (run Posix.spawn "libfoo.o" (Posix.Machine false ∅))) =
       [EvChildStderr
          (diagnostics
             (child_of Posix.spawn "libfoo.o" (Posix.Machine false ∅)));
        EvTraceback
          (CalledProcessError
             (returncode
                (child_of Posix.spawn "libfoo.o" (Posix.Machine false ∅)))
             (Str (cmd_line "libfoo.o")))].
Proof.
  apply (failure_surfaces_diagnostics Posix.spawn "libfoo.o"
           (Posix.Machine false ∅)).
  vm_compute. discriminate.
Defined.

(** C5, as stated, fails: on a machine without [objcopy] the shell ends
    with 127 and its message is on the error stream, but the error does
    not pass as it is: the script exits with 1, and the error stream
    also holds the traceback of [CalledProcessError]. *)
Lemma failure_adds_traceback :
  returncode (child_of Posix.spawn "libfoo.o" (Posix.Machine false ∅)) = 127
  /\ exit_status (run Posix.spawn "libfoo.o" (Posix.Machine false ∅)) = 1
  /\ stderr_pieces (trace (run Posix.spawn "libfoo.o" (Posix.Machine false ∅)))
     = [EvChildStderr "/bin/sh: 1: objcopy: not found";
        EvTraceback (CalledProcessError 127 (Str (cmd_line "libfoo.o")))]
  /\ stderr_pieces (trace (run Posix.spawn "libfoo.o" (Posix.Machine false ∅)))
     <> [EvChildStderr
           (diagnostics
              (child_of Posix.spawn "libfoo.o" (Posix.Machine false ∅)))].
Proof.
  split; [vm_compute; reflexivity |].
  split; [vm_compute; reflexivity |].
  split; [vm_compute; reflexivity |].
  vm_compute. discriminate.
Qed.

(** C6, as amended: for every command line on which the parser does not
    act on the help option, and that has no positional argument, more
    than one, or a word that looks like an option, the script prints the
    usage message of the parser and exits with status 2, and no child
    process is created. *)
Theorem malformed_argv_usage_error {W : Type}
        (spawn : list string -> W -> child * W)
        (argv : list string) (w : W) :
  help_reached argv = false ->
  positional_words argv = []
  \/ (1 < length (positional_words argv))%nat
  \/ option_words argv <> [] ->
  exists e,
    trace (main spawn argv w) = [EvUsage e]
    /\ exit_status (main spawn argv w) = 2
    /\ spawn_count (trace (main spawn argv w)) = 0%nat.
Proof.
  intros Hh Hbad. unfold main, Argparse.parse_args.
  destruct (Argparse.walk argv None []) as [p| |e] eqn:E.
  - exfalso. apply walk_Namespace in E.
    destruct E as (_ & Ho & [[_ Hp]|[Hn _]]); [|discriminate Hn].
    rewrite Hp in Hbad. simpl in Hbad.
    destruct Hbad as [Hbad|[Hbad|Hbad]]; [discriminate | lia | congruence].
  - apply walk_HelpExit in E. congruence.
  - exists e. repeat split.
Qed.

Lemma malformed_argv_usage_error_witness :
  exists e,
    trace (main (child_ends 0 "") ["a.o"; "-x"; "b.o"] tt) = [EvUsage e]
    /\ exit_status (main (child_ends 0 "") ["a.o"; "-x"; "b.o"] tt) = 2
    /\ spawn_count (trace (main (child_ends 0 "") ["a.o"; "-x"; "b.o"] tt))
       = 0%nat.
Proof.
  apply (malformed_argv_usage_error (child_ends 0 "")
           ["a.o"; "-x"; "b.o"] tt).
  - reflexivity.
  - right. left. vm_compute. lia.
Defined.

(** C6, as stated, fails: the command line [-h] has no positional
    argument, and the script prints the help text and exits with
    status 0. *)
Lemma help_exits_zero :
  positional_words ["-h"] = []
  /\ trace (main (child_ends 0 "") ["-h"] tt) = [EvHelp]
  /\ exit_status (main (child_ends 0 "") ["-h"] tt) = 0.
Proof. repeat split. Qed.

(** C7, as amended: every [run path], that is every invocation whose
    command line the parser accepts, creates exactly one child process
    and has waited for it before the script exits: the trace is the
    creation of the child, what the child writes, the wait, and after
    that no further creation.  An invocation the parser does not accept
    creates no child, and no invocation creates a second one. *)
Theorem one_child_then_wait {W : Type}
        (spawn : list string -> W -> child * W) (p : string) (w : W) :
  spawn_count (trace (run spawn p w)) = 1%nat
  /\ (exists rest,
        trace (run spawn p w) =
          [EvSpawn (run_argv p);
           EvChildStderr (diagnostics (child_of spawn p w));
           EvWait (returncode (child_of spawn p w))] ++ rest
        /\ spawn_count rest = 0%nat)
  /\ (forall argv : list string,
        (spawn_count (trace (main spawn argv w)) <= 1)%nat)
  /\ (forall argv : list string,
        (exists q, accepted argv q /\ main spawn argv w = run spawn q w)
        \/ ((forall q, ~ accepted argv q)
            /\ spawn_count (trace (main spawn argv w)) = 0%nat)).
Proof.
  split; [apply run_spawn_count |].
  split; [apply run_trace |].
  split.
  - intros argv. unfold main.
    destruct (Argparse.parse_args argv) as [q| |e]; simpl.
    + rewrite run_spawn_count. lia.
    + unfold spawn_count. simpl. lia.
    + unfold spawn_count. simpl. lia.
  - intros argv. unfold main.
    destruct (Argparse.parse_args argv) as [q| |e] eqn:E.
    + left. exists q. apply parse_args_Namespace_iff in E. now split.
    + right. split; [|reflexivity].
      intros q Hq. apply parse_args_Namespace_iff in Hq. congruence.
    + right. split; [|reflexivity].
      intros q Hq. apply parse_args_Namespace_iff in Hq. congruence.
Qed.

(** C7, as stated, fails: an invocation without arguments creates no
    child process at all. *)
Lemma no_child_without_arguments :
  spawn_count (trace (main (child_ends 0 "") [] tt)) = 0%nat
  /\ spawn_count (trace (main (child_ends 0 "") [] tt)) <> 1%nat
  /\ exit_status (main (child_ends 0 "") [] tt) = 2.
Proof. repeat split. discriminate. Qed.


(** C9: the table of the script has 18 original names, no two of them
    equal; every renamed name is its original name with the fixed prefix
    [__rust] in front; no renamed name is an original name of any entry;
    and the flags of the script are the entries of this table. *)
Theorem rename_table_invariant :
  length syms = 18%nat
  /\ NoDup syms
  /\ map fst rename_table = syms
  /\ Forall (fun e => snd e = rename_prefix +:+ fst e) rename_table
  /\ (forall o r : string,
        In o (map fst rename_table) -> In r (map snd rename_table) ->
        r <> o)
  /\ objcopy_args = map flag_of_entry rename_table.
Proof.
  split; [reflexivity |].
  split; [exact syms_NoDup |].
  split; [reflexivity |].
  split; [exact rename_table_prefixed |].
  split; [|reflexivity].
  intros o r Ho Hr. rewrite rename_table_fst in Ho.
  now apply renamed_not_original.
Qed.

(** C10: on a machine whose tool behaves as the specification assumes,
    after a first run on a plain path that ended with status 0 the file
    holds none of the original names, and a second run on the same path
    ends with status 0 and leaves the machine as the first run left
    it. *)
Theorem second_run_is_noop (p : string) (m : Posix.machine) :
  Posix.plain_word p ->
  exit_status (run Posix.spawn p m) = 0 ->
  let m1 := world (run Posix.spawn p m) in
  exit_status (run Posix.spawn p m1) = 0
  /\ world (run Posix.spawn p m1) = m1
  /\ exists symbols,
       Posix.files m1 !! p = Some (Posix.ObjectFile symbols)
       /\ forall o, In o syms -> ~ In o symbols.
Proof.
  intros Hp H0.
  destruct (posix_run_success p m Hp H0) as (symbols & Ht & Hf & Hw).
  simpl. rewrite Hw.
  set (symbols1 := map (Posix.redefine rename_table) symbols).
  set (m1 := Posix.Machine true
                (<[p := Posix.ObjectFile symbols1]> (Posix.files m))).
  assert (H1 : Posix.files m1 !! p = Some (Posix.ObjectFile symbols1))
    by apply lookup_insert_eq.
  rewrite (posix_run_object p m1 symbols1 Hp eq_refl H1).
  simpl. split; [reflexivity |]. split.
  - unfold m1. rewrite insert_insert_eq. do 3 f_equal. unfold symbols1.
    rewrite List.map_map. apply List.map_ext.
    intros s. apply redefine_idempotent.
  - exists symbols1. split; [exact H1 |].
    intros o Ho Hin. unfold symbols1 in Hin.
    apply in_map_iff in Hin. destruct Hin as (s & Hs & _).
    exact (redefine_not_original s o Ho Hs).
Qed.

Lemma second_run_is_noop_witness :
  let m := Posix.Machine true
             (<["libfoo.o" := Posix.ObjectFile ["__addsf3"; "main"]]> ∅) in
  let m1 := world (run Posix.spawn "libfoo.o" m) in
  exit_status (run Posix.spawn "libfoo.o" m1) = 0
  /\ world (run Posix.spawn "libfoo.o" m1) = m1
  /\ exists symbols,
       Posix.files m1 !! "libfoo.o" = Some (Posix.ObjectFile symbols)
       /\ forall o, In o syms -> ~ In o symbols.
Proof.
  apply (second_run_is_noop "libfoo.o"
           (Posix.Machine true
              (<["libfoo.o" := Posix.ObjectFile ["__addsf3"; "main"]]> ∅))).
  - split; [discriminate | reflexivity].
  - vm_compute. reflexivity.
Defined.

(** ** Further properties of the script *)

(** *** The argument parser (lines 6 to 9) *)


Section WholeScript.

Context {W : Type}.
Variable spawn : list string -> W -> child * W.

(** X2: the script reaches the call of the tool exactly for three
    shapes of command line: a positional word alone, a positional word
    followed by [--], and [--] followed by any word; it is then [run] on
    that word, with one child.  For every other command line no child is
    created, the machine is left as it was, and the exit status is 0
    (help) or 2 (usage error). *)
Theorem tool_runs_iff_accepted (argv : list string) (w : W) :
  (exists p, accepted argv p
             /\ main spawn argv w = run spawn p w
             /\ spawn_count (trace (main spawn argv w)) = 1%nat)
  \/ ((forall p, ~ accepted argv p)
      /\ spawn_count (trace (main spawn argv w)) = 0%nat
      /\ world (main spawn argv w) = w
      /\ (exit_status (main spawn argv w) = 0
          \/ exit_status (main spawn argv w) = 2)).
Proof.
  unfold main.
  destruct (Argparse.parse_args argv) as [q| |e] eqn:E.
  - left. exists q. apply parse_args_Namespace_iff in E.
    repeat split; [exact E | apply run_spawn_count].
  - right. repeat split; [|now left].
    intros p Hp. apply parse_args_Namespace_iff in Hp. congruence.
  - right. repeat split; [|now right].
    intros p Hp. apply parse_args_Namespace_iff in Hp. congruence.
Qed.

End WholeScript.

(** *** The flags and the command line (lines 32 to 36) *)

Lemma length_append (a b : string) :
  String.length (a +:+ b) = (String.length a + String.length b)%nat.
Proof.
  induction a as [|x a IH]; [reflexivity |].
  rewrite append_cons. simpl. now rewrite IH.
Qed.

(** Two texts that start with words of the same length start with the
    same word. *)
Lemma append_same_length (a c b d : string) :
  String.length a = String.length c -> a +:+ b = c +:+ d -> a = c.
Proof.
  revert c. induction a as [|x a IH]; intros [|y c] Hl H;
    try discriminate Hl; [reflexivity |].
  rewrite !append_cons in H. injection H as -> H.
  f_equal. apply IH; [now injection Hl | exact H].
Qed.

Lemma redefine_flag_inj (x y : string) :
  redefine_flag x = redefine_flag y -> x = y.
Proof.
  unfold redefine_flag. intros H.
  apply (inj (String.app "--redefine-sym ")) in H.
  apply (append_same_length x y ("=__rust" +:+ x) ("=__rust" +:+ y));
    [|exact H].
  apply (f_equal String.length) in H.
  rewrite !length_append in H. simpl in H. lia.
Qed.

(** X5: the format of line 32 keeps distinct symbols distinct, whatever
    the symbols are: a list of symbols without a repetition gives a list
    of flags without a repetition. *)
Theorem flags_distinct (l : list string) :
  NoDup l -> NoDup (map redefine_flag l).
Proof.
  intros H. induction H as [|x l Hx Hl IH]; simpl.
  - constructor.
  - constructor; [|exact IH].
    intros Hin. apply Hx.
    apply list_elem_of_In in Hin. apply in_map_iff in Hin.
    destruct Hin as (y & Hy & Hin).
    apply redefine_flag_inj in Hy. subst y.
    now apply list_elem_of_In.
Qed.

(** X5 on the symbols of the script: its 18 flags are pairwise
    distinct. *)
Lemma flags_distinct_witness : NoDup objcopy_args.
Proof.
  unfold objcopy_args. apply (flags_distinct syms).
  apply (bool_decide_unpack _). vm_compute. reflexivity.
Defined.

(** X6: two different paths never give the same command line. *)
Theorem cmd_line_distinct (p q : string) :
  p <> q -> cmd_line p <> cmd_line q.
Proof.
  intros Hpq H. apply Hpq.
  rewrite !cmd_line_path in H.
  apply (inj (String.app _)) in H.
  now apply (inj (String.app " ")) in H.
Qed.

Lemma cmd_line_distinct_witness : cmd_line "a.o" <> cmd_line "b.o".
Proof.
  apply (cmd_line_distinct "a.o" "b.o"). discriminate.
Defined.

(** *** The command line as the shell and the tool read it *)

Lemma fields_app_blank (a b : string) :
  Posix.fields (a +:+ " " +:+ b) =
    (fst (Posix.fields a),
     snd (Posix.fields a) ++ Posix.shell_words b).
Proof.
  unfold Posix.shell_words. induction a as [|c a IH].
  - change ("" +:+ " " +:+ b) with (String " " b). simpl.
    now destruct (Posix.fields b).
  - rewrite append_cons. simpl. rewrite IH.
    destruct (Posix.fields a) as [w ws]. simpl.
    destruct (Posix.is_blank c); simpl; [|reflexivity].
    now rewrite <- app_assoc.
Qed.

(** A blank between two texts separates their words. *)
Lemma shell_words_app_blank (a b : string) :
  Posix.shell_words (a +:+ " " +:+ b) =
    Posix.shell_words a ++ Posix.shell_words b.
Proof.
  unfold Posix.shell_words at 1 2. rewrite fields_app_blank.
  destruct (Posix.fields a) as [w ws]. simpl. now rewrite <- app_assoc.
Qed.

(** X7: whatever the path is, the words the shell makes of the command
    line are [objcopy], the 18 flags as two words each, and then the
    blank-separated words of the path: none for an empty or blank path,
    several for a path with blanks. *)
Theorem shell_words_of_command (p : string) :
  Posix.shell_words (cmd_line p) =
    "objcopy" :: tool_flag_words ++ Posix.shell_words p.
Proof.
  rewrite cmd_line_path, shell_words_app_blank. reflexivity.
Qed.

(** X8: for a plain path, what the tool reads back from its arguments
    is the rename table of the script, entry by entry and in order, and
    the path. *)
Theorem flags_round_trip (p : string) :
  Posix.plain_word p ->
  Posix.objcopy_parse (tl (Posix.shell_words (cmd_line p))) =
    Some (rename_table, p).
Proof.
  intros Hp. rewrite (shell_words_cmd_line p Hp). simpl tl.
  apply objcopy_parse_flags.
Qed.

Lemma flags_round_trip_witness :
  Posix.objcopy_parse (tl (Posix.shell_words (cmd_line "libfoo.o"))) =
    Some (rename_table, "libfoo.o").
Proof.
  apply (flags_round_trip "libfoo.o").
  split; [discriminate | reflexivity].
Defined.

(** *** The whole run on the modelled machine *)

(** X9: on the modelled machine a run on a plain path is all or
    nothing.  It ends with status 0 exactly when the tool is installed
    and the path names an object file; in every other case (tool not
    found, no such file, not an object file) it ends with status 1 and
    the machine is left as it was. *)
Theorem posix_run_all_or_nothing (p : string) (m : Posix.machine) :
  Posix.plain_word p ->
  (exit_status (run Posix.spawn p m) = 0 <->
     Posix.has_objcopy m = true
     /\ exists symbols, Posix.files m !! p = Some (Posix.ObjectFile symbols))
  /\ (exit_status (run Posix.spawn p m) = 0
      \/ (exit_status (run Posix.spawn p m) = 1
          /\ world (run Posix.spawn p m) = m)).
Proof.
  intros Hp. split.
  - split.
    + intros H0.
      destruct (posix_run_success p m Hp H0) as (symbols & Ht & Hf & _).
      eauto.
    + intros (Ht & symbols & Hf).
      now rewrite (posix_run_object p m symbols Hp Ht Hf).
  - rewrite run_eq. unfold child_of.
    rewrite (spawn_run_argv p m Hp).
    unfold Posix.objcopy. rewrite objcopy_parse_flags.
    destruct (Posix.has_objcopy m); simpl; [|now right].
    destruct (Posix.files m !! p) as [[symbols|]|]; simpl;
      [now left | now right | now right].
Qed.

Lemma posix_run_all_or_nothing_witness :
  (exit_status (run Posix.spawn "libfoo.o" (Posix.Machine true ∅)) = 0 <->
     Posix.has_objcopy (Posix.Machine true ∅) = true
     /\ exists symbols,
          Posix.files (Posix.Machine true ∅) !! "libfoo.o" =
            Some (Posix.ObjectFile symbols))
  /\ (exit_status (run Posix.spawn "libfoo.o" (Posix.Machine true ∅)) = 0
      \/ (exit_status (run Posix.spawn "libfoo.o" (Posix.Machine true ∅)) = 1
          /\ world (run Posix.spawn "libfoo.o" (Posix.Machine true ∅)) =
               Posix.Machine true ∅)).
Proof.
  apply (posix_run_all_or_nothing "libfoo.o" (Posix.Machine true ∅)).
  split; [discriminate | reflexivity].
Defined.

(** X10: on the modelled machine, a run on a plain path that names an
    object file gives every symbol of the file that is in [syms] the
    prefix [__rust] and keeps every other symbol, in place and in order;
    no other file changes. *)
Theorem run_renames_symbols (p : string) (m : Posix.machine)
        (symbols : list string) :
  Posix.plain_word p ->
  Posix.has_objcopy m = true ->
  Posix.files m !! p = Some (Posix.ObjectFile symbols) ->
  Posix.files (world (run Posix.spawn p m)) !! p =
    Some (Posix.ObjectFile (map rename_symbol symbols))
  /\ (forall q : string,
        q <> p ->
        Posix.files (world (run Posix.spawn p m)) !! q = Posix.files m !! q)
  /\ Posix.has_objcopy (world (run Posix.spawn p m)) = true.
Proof.
  intros Hp Ht Hf. rewrite (posix_run_object p m symbols Hp Ht Hf). simpl.
  assert (E : map (Posix.redefine rename_table) symbols =
              map rename_symbol symbols).
  { apply List.map_ext. intros s. apply redefine_rename_table. }
  rewrite E. split; [apply lookup_insert_eq |].
  split; [|reflexivity].
  intros q Hq. now apply lookup_insert_ne.
Qed.

Lemma run_renames_symbols_witness :
  let m := Posix.Machine true
             (<["libfoo.o" := Posix.ObjectFile ["__addsf3"; "main"]]> ∅) in
  Posix.files (world (run Posix.spawn "libfoo.o" m)) !! "libfoo.o" =
    Some (Posix.ObjectFile (map rename_symbol ["__addsf3"; "main"]))
  /\ (forall q : string,
        q <> "libfoo.o" ->
        Posix.files (world (run Posix.spawn "libfoo.o" m)) !! q =
          Posix.files m !! q)
  /\ Posix.has_objcopy (world (run Posix.spawn "libfoo.o" m)) = true.
Proof.
  apply (run_renames_symbols "libfoo.o"
           (Posix.Machine true
              (<["libfoo.o" := Posix.ObjectFile ["__addsf3"; "main"]]> ∅))
           ["__addsf3"; "main"]).
  - split; [discriminate | reflexivity].
  - reflexivity.
  - vm_compute. reflexivity.
Defined.
